(** * GpioFast.h: fast GPIO pin manipulation

    A shallow embedding of the functions that the macros
    [GPIO_output_functions2] and [GPIO_input_functions2] of
    [Blink/Core/Inc/GpioFast.h] generate for a pin name [x], together with
    the properties that the specification states about them.

    The generated functions touch the port only through two memory-mapped
    registers: they store to [x_GPIO_Port->BSRR] and they load from
    [x_GPIO_Port->IDR].  A generated function is therefore embedded as a
    computation that, started on a port, yields a result, the port afterwards
    and the list of register accesses it made, in program order. *)

From Stdlib Require Import ZArith List Bool Lia.
Import ListNotations.

Local Open Scope Z_scope.

(** ** Machine integers *)

(** Conversion to [uint32_t]: the value modulo [2^32]. *)
Definition uint32 (z : Z) : Z := z mod 2 ^ 32.

(** [GPIO_PIN k] is bit mask of pin number [k] (CubeMX defines [x_Pin] as one
    of [GPIO_PIN_0] ... [GPIO_PIN_15], a [uint16_t] constant). *)
Definition GPIO_PIN (k : Z) : Z := Z.shiftl 1 k.

(** ** The port *)

(** The registers of a port's register block that matter here: the combined
    set/reset register, the input-data register and the output-data register
    (the output latch). *)
Inductive reg : Set := BSRR | IDR | ODR.

(** One access to a register of the port, as it appears on the bus. *)
Inductive access : Set :=
| Store (r : reg) (v : Z)
| Load (r : reg) (v : Z).

(** Modelled from the spec: the register block [GPIO_TypeDef] and the
    reaction of the port hardware to an access are not part of
    [GpioFast.h].  The port has an output latch; a pin whose bit is in
    [loopback] shows the level of its latch on its input (an output pin, or a
    pin wired back in a test rig), any other pin shows the level [pads] that
    is applied to it from outside. *)
Record GPIO_TypeDef : Set := mkPort {
  latch : Z;
  pads : Z;
  loopback : Z
}.

(** What a load of the input-data register returns. *)
Definition IDR_of (p : GPIO_TypeDef) : Z :=
  Z.lor (Z.land (latch p) (loopback p))
        (Z.land (pads p) (Z.lnot (loopback p))).

(** Modelled from the spec: "a combined set/reset register where writing a
    bit in the lower half sets the corresponding output pin and writing the
    same bit position shifted into the upper half clears it".  The new value
    of the output latch after the word [w] is stored to [BSRR]; a pin whose
    bit is in both halves of [w] is set.  The generated functions never
    store such a word for a mask below [2^16]. *)
Definition BSRR_effect (w odr : Z) : Z :=
  Z.lor (Z.land odr (Z.lnot (Z.shiftr w 16))) (Z.land w 65535).

Definition hw_load (r : reg) (p : GPIO_TypeDef) : Z :=
  match r with
  | IDR => IDR_of p
  | ODR => latch p
  | BSRR => 0
  end.

Definition hw_store (r : reg) (v : Z) (p : GPIO_TypeDef) : GPIO_TypeDef :=
  match r with
  | BSRR => mkPort (BSRR_effect v (latch p)) (pads p) (loopback p)
  | ODR => mkPort (Z.land v 65535) (pads p) (loopback p)
  | IDR => p
  end.

(** ** Computations on a port *)

(** A computation returns [None] when it did not finish within the fuel it
    was given, and otherwise its result, the port afterwards and the accesses
    it made. *)
Definition M (A : Type) : Type :=
  GPIO_TypeDef -> option (A * GPIO_TypeDef * list access).

Definition ret {A : Type} (a : A) : M A :=
  fun p => Some (a, p, []).

Definition bind {A B : Type} (m : M A) (f : A -> M B) : M B :=
  fun p =>
    match m p with
    | None => None
    | Some (a, p1, t1) =>
        match f a p1 with
        | None => None
        | Some (b, p2, t2) => Some (b, p2, t1 ++ t2)
        end
    end.

Definition out_of_fuel {A : Type} : M A := fun _ => None.

Definition store (r : reg) (v : Z) : M unit :=
  fun p => Some (tt, hw_store r v p, [Store r v]).

Definition load (r : reg) : M Z :=
  fun p => Some (hw_load r p, p, [Load r (hw_load r p)]).

Declare Scope gpio_scope.
Delimit Scope gpio_scope with gpio.
Notation "x <- m ;; k" := (bind m (fun x => k))
  (at level 61, m at next level, right associativity) : gpio_scope.
Notation "m ;; k" := (bind m (fun _ => k))
  (at level 61, right associativity) : gpio_scope.
Local Open Scope gpio_scope.

(** Projections of the outcome of a computation. *)
Definition result_of {A : Type} (m : M A) (p : GPIO_TypeDef) : option A :=
  match m p with Some (a, _, _) => Some a | None => None end.

Definition port_after {A : Type} (m : M A) (p : GPIO_TypeDef)
  : option GPIO_TypeDef :=
  match m p with Some (_, q, _) => Some q | None => None end.

(** ** The generated functions *)

Section GPIO_output_functions2.

(** The pin's bit mask [x_Pin]; the port [x_GPIO_Port] is the port the
    computation runs on. *)
Variable x_Pin : Z.

(** [void x_on() { x_GPIO_Port->BSRR = (uint32_t)(x_Pin); }] *)
Definition x_on : M unit :=
  store BSRR (uint32 x_Pin).

(** [void x_off() { x_GPIO_Port->BSRR = (uint32_t)(x_Pin << 16); }]

    The shift is made on the promoted mask; the conversion keeps the low
    32 bits of the shifted value. *)
Definition x_off : M unit :=
  store BSRR (uint32 (Z.shiftl x_Pin 16)).

(** [void x_set(uint32_t arg) { if (arg) x_on(); else x_off(); }]

    [arg] is the value of the parameter, a [uint32_t]: the caller's argument
    after its conversion, so [0 <= arg < 2^32] (see [well_typed]). *)
Definition x_set (arg : Z) : M unit :=
  if negb (arg =? 0) then x_on else x_off.

(** [uint32_t x_get() { return 0 != (x_GPIO_Port->IDR & x_Pin); }] *)
Definition x_get : M Z :=
  idr <- load IDR ;;
  ret (if negb (0 =? Z.land idr (uint32 x_Pin)) then 1 else 0).

(** [void x_pulse(unsigned qty)
       { for (; qty; qty--) { x_on(); x_off(); } }]

    One unit of fuel is spent on each evaluation of the loop condition. *)
Fixpoint pulse_loop (fuel : nat) (qty : Z) : M unit :=
  match fuel with
  | O => out_of_fuel
  | S fuel' =>
      if negb (qty =? 0)
      then x_on ;; x_off ;; pulse_loop fuel' (uint32 (qty - 1))
      else ret tt
  end.

Definition x_pulse (qty : Z) : M unit :=
  pulse_loop (S (Z.to_nat qty)) qty.

End GPIO_output_functions2.

(** The input-only variant generates the getter alone. *)
Module GPIO_input_functions2.

(** [uint32_t x_get() { return 0 != (x_GPIO_Port->IDR & x_Pin); }] *)
Definition x_get (x_Pin : Z) : M Z :=
  idr <- load IDR ;;
  ret (if negb (0 =? Z.land idr (uint32 x_Pin)) then 1 else 0).

End GPIO_input_functions2.

(** The five operations of a pin, as a closed set. *)
Inductive operation : Set :=
| On
| Off
| SetTo (arg : Z)
| Get
| Pulse (qty : Z).

(** The arguments an operation can receive: [arg] is a [uint32_t] and [qty]
    an [unsigned]. *)
Definition well_typed (o : operation) : Prop :=
  match o with
  | SetTo arg => 0 <= arg < 2 ^ 32
  | Pulse qty => 0 <= qty < 2 ^ 32
  | _ => True
  end.

(** Calling an operation; the result of [x_get] is returned, the other
    operations return nothing, which is shown as [0]. *)
Definition call (x_Pin : Z) (o : operation) : M Z :=
  match o with
  | On => x_on x_Pin ;; ret 0
  | Off => x_off x_Pin ;; ret 0
  | SetTo arg => x_set x_Pin arg ;; ret 0
  | Get => x_get x_Pin
  | Pulse qty => x_pulse x_Pin qty ;; ret 0
  end.

(** ** Observations used by the properties *)

(** The effect of one access on the port, and of a list of accesses. *)
Definition apply_access (p : GPIO_TypeDef) (a : access) : GPIO_TypeDef :=
  match a with
  | Store r v => hw_store r v p
  | Load _ _ => p
  end.

Definition replay (t : list access) (p : GPIO_TypeDef) : GPIO_TypeDef :=
  fold_left apply_access t p.

(** The port with the pin's bits set, and with the pin's bits cleared. *)
Definition raised (x_Pin : Z) (p : GPIO_TypeDef) : GPIO_TypeDef :=
  mkPort (Z.lor (latch p) x_Pin) (pads p) (loopback p).

Definition lowered (x_Pin : Z) (p : GPIO_TypeDef) : GPIO_TypeDef :=
  mkPort (Z.land (latch p) (Z.lnot x_Pin)) (pads p) (loopback p).

(** The pin is driven high when some bit of its mask is set in the latch. *)
Definition driven_high (x_Pin : Z) (p : GPIO_TypeDef) : bool :=
  negb (Z.land (latch p) x_Pin =? 0).

(** The level of the pin after each access of a list, in order. *)
Fixpoint levels (x_Pin : Z) (p : GPIO_TypeDef) (t : list access) : list bool :=
  match t with
  | [] => []
  | a :: t' =>
      let q := apply_access p a in
      driven_high x_Pin q :: levels x_Pin q t'
  end.

(** The number of edges, rising or falling, in a sequence of levels that
    follows the level [prev]. *)
Fixpoint edges (prev : bool) (l : list bool) : nat :=
  match l with
  | [] => O
  | b :: l' => if xorb prev b then S (edges b l') else edges b l'
  end.

(** The number of edges an operation produces on the pin. *)
Definition edges_of {A : Type} (x_Pin : Z) (m : M A) (p : GPIO_TypeDef)
  : option nat :=
  match m p with
  | Some (_, _, t) => Some (edges (driven_high x_Pin p) (levels x_Pin p t))
  | None => None
  end.

(** The accesses of [n] pulses: a store of the word [hi] followed by a store
    of the word [lo], [n] times. *)
Fixpoint pulse_train (hi lo : Z) (n : nat) : list access :=
  match n with
  | O => []
  | S n' => Store BSRR hi :: Store BSRR lo :: pulse_train hi lo n'
  end.

(** The levels of [n] pulses: high then low, [n] times. *)
Fixpoint square_wave (n : nat) : list bool :=
  match n with
  | O => []
  | S n' => true :: false :: square_wave n'
  end.

(** An access to [r], store or load. *)
Definition touches (r : reg) (a : access) : bool :=
  match a, r with
  | Store BSRR _, BSRR | Load BSRR _, BSRR => true
  | Store IDR _, IDR | Load IDR _, IDR => true
  | Store ODR _, ODR | Load ODR _, ODR => true
  | _, _ => false
  end.

(** The accesses a pin's operations may make: a store of the pin's mask, or
    of the mask shifted into the upper half, to the set/reset register, and a
    load of the input-data register. *)
Definition masked_access (x_Pin : Z) (a : access) : bool :=
  match a with
  | Store BSRR v => (v =? x_Pin) || (v =? Z.shiftl x_Pin 16)
  | Load IDR _ => true
  | _ => false
  end.

(** The ports [p] and [q] differ at most in the bits of the mask [x_Pin]:
    every other bit of the output latch and of the input-data register is
    the same, and so are the levels applied from outside and the wiring. *)
Definition same_outside (x_Pin : Z) (p q : GPIO_TypeDef) : Prop :=
  (forall j, Z.testbit x_Pin j = false ->
             Z.testbit (latch q) j = Z.testbit (latch p) j
             /\ Z.testbit (IDR_of q) j = Z.testbit (IDR_of p) j)
  /\ pads q = pads p
  /\ loopback q = loopback p.

(** The number of stores of the word [w] to the set/reset register. *)
Fixpoint count_word (w : Z) (t : list access) : nat :=
  match t with
  | [] => O
  | Store BSRR v :: t' =>
      if v =? w then S (count_word w t') else count_word w t'
  | _ :: t' => count_word w t'
  end.

(** The number of accesses an operation makes. *)
Definition cost (o : operation) : nat :=
  match o with
  | Pulse qty => (2 * Z.to_nat qty)%nat
  | _ => 1%nat
  end.

(** What an operation does to the pin's bits of the output latch: it leaves
    them, sets them or clears them. *)
Inductive drive : Set := Keep | High | Low.

Definition effect (o : operation) : drive :=
  match o with
  | On => High
  | Off => Low
  | SetTo arg => if arg =? 0 then Low else High
  | Get => Keep
  | Pulse qty => if qty =? 0 then Keep else Low
  end.

Definition settle (x_Pin : Z) (o : operation) (p : GPIO_TypeDef)
  : GPIO_TypeDef :=
  match effect o with
  | Keep => p
  | High => raised x_Pin p
  | Low => lowered x_Pin p
  end.

(** The operations that store to the port at least once. *)
Definition drives (o : operation) : bool :=
  match effect o with
  | Keep => false
  | _ => true
  end.

(** ** Lemmas *)

(** Closes a range goal on literals. *)
Ltac in_range := vm_compute; split; [discriminate | reflexivity].

(** *** Arithmetic of the register words *)

Lemma uint32_small (z : Z) : 0 <= z < 2 ^ 32 -> uint32 z = z.
Proof. intros H. unfold uint32. now apply Z.mod_small. Qed.

Lemma testbit_high (x n i : Z) :
  0 <= n -> 0 <= x < 2 ^ n -> n <= i -> Z.testbit x i = false.
Proof.
  intros Hn Hx Hi.
  rewrite <- (Z.mod_small x (2 ^ n)) by assumption.
  apply Z.mod_pow2_bits_high. lia.
Qed.

Lemma halfword_bits (i : Z) : 0 <= i -> Z.testbit 65535 i = (i <? 16).
Proof.
  intros Hi. change 65535 with (Z.ones 16).
  destruct (Z.ltb_spec i 16).
  - apply Z.ones_spec_low. lia.
  - apply Z.ones_spec_high. lia.
Qed.

Lemma BSRR_effect_bits (w odr i : Z) :
  0 <= i ->
  Z.testbit (BSRR_effect w odr) i
  = (Z.testbit odr i && negb (Z.testbit w (i + 16)))
    || (Z.testbit w i && (i <? 16)).
Proof.
  intros Hi. unfold BSRR_effect.
  rewrite Z.lor_spec, !Z.land_spec, Z.lnot_spec, Z.shiftr_spec by assumption.
  now rewrite halfword_bits.
Qed.

Lemma shifted_mask_range (x : Z) :
  0 <= x < 2 ^ 16 -> 0 <= Z.shiftl x 16 < 2 ^ 32.
Proof.
  intros H. rewrite Z.shiftl_mul_pow2 by lia.
  change (2 ^ 32) with (2 ^ 16 * 2 ^ 16). nia.
Qed.

(** Storing the mask sets its bits in the latch. *)
Lemma set_word_effect (x odr : Z) :
  0 <= x < 2 ^ 16 -> BSRR_effect x odr = Z.lor odr x.
Proof.
  intros Hx.
  apply Z.bits_inj'. intros i Hi.
  rewrite BSRR_effect_bits, Z.lor_spec by assumption.
  rewrite (testbit_high x 16 (i + 16)) by lia.
  destruct (Z.ltb_spec i 16).
  - now destruct (Z.testbit odr i), (Z.testbit x i).
  - rewrite (testbit_high x 16 i) by lia. now destruct (Z.testbit odr i).
Qed.

(** Storing the mask shifted into the upper half clears its bits. *)
Lemma reset_word_effect (x odr : Z) :
  0 <= x < 2 ^ 16 ->
  BSRR_effect (Z.shiftl x 16) odr = Z.land odr (Z.lnot x).
Proof.
  intros Hx.
  apply Z.bits_inj'. intros i Hi.
  rewrite BSRR_effect_bits, Z.land_spec, Z.lnot_spec by assumption.
  rewrite !Z.shiftl_spec by lia.
  replace (i + 16 - 16) with i by lia.
  destruct (Z.ltb_spec i 16).
  - rewrite (Z.testbit_neg_r x (i - 16)) by lia.
    now destruct (Z.testbit odr i), (Z.testbit x i).
  - now destruct (Z.testbit odr i), (Z.testbit x i), (Z.testbit x (i - 16)).
Qed.

(** Storing the same word twice is storing it once. *)
Lemma BSRR_effect_twice (w odr : Z) :
  BSRR_effect w (BSRR_effect w odr) = BSRR_effect w odr.
Proof.
  apply Z.bits_inj'. intros i Hi.
  rewrite !BSRR_effect_bits by assumption.
  destruct (Z.testbit odr i), (Z.testbit w (i + 16)), (Z.testbit w i),
    (i <? 16); reflexivity.
Qed.

Lemma GPIO_PIN_bits (k j : Z) :
  0 <= k -> Z.testbit (GPIO_PIN k) j = (j =? k).
Proof.
  intros Hk. unfold GPIO_PIN.
  destruct (Z.eqb_spec j k) as [->|Hne].
  - rewrite Z.shiftl_spec, Z.sub_diag by assumption. reflexivity.
  - destruct (Z.neg_nonneg_cases j) as [Hj|Hj].
    + now apply Z.testbit_neg_r.
    + rewrite Z.shiftl_spec by assumption.
      destruct (Z.lt_ge_cases j k).
      * apply Z.testbit_neg_r. lia.
      * change 1 with (2 ^ 0). apply Z.pow2_bits_false. lia.
Qed.

Lemma GPIO_PIN_range (k : Z) : 0 <= k < 16 -> 0 < GPIO_PIN k < 2 ^ 16.
Proof.
  intros Hk. unfold GPIO_PIN. rewrite Z.shiftl_1_l.
  split.
  - apply Z.pow_pos_nonneg; lia.
  - apply Z.pow_lt_mono_r; lia.
Qed.

(** *** The generated functions, run *)

Lemma bind_run {A B : Type} (m : M A) (f : A -> M B) p a p1 t1 b p2 t2 :
  m p = Some (a, p1, t1) ->
  f a p1 = Some (b, p2, t2) ->
  bind m f p = Some (b, p2, t1 ++ t2).
Proof. intros Hm Hf. unfold bind. now rewrite Hm, Hf. Qed.

Lemma x_on_run (x_Pin : Z) (p : GPIO_TypeDef) :
  0 <= x_Pin < 2 ^ 16 ->
  x_on x_Pin p = Some (tt, raised x_Pin p, [Store BSRR x_Pin]).
Proof.
  intros Hx. unfold x_on, store, raised. cbn [hw_store].
  rewrite uint32_small by lia.
  now rewrite set_word_effect by assumption.
Qed.

Lemma x_off_run (x_Pin : Z) (p : GPIO_TypeDef) :
  0 <= x_Pin < 2 ^ 16 ->
  x_off x_Pin p
  = Some (tt, lowered x_Pin p, [Store BSRR (Z.shiftl x_Pin 16)]).
Proof.
  intros Hx. unfold x_off, store, lowered. cbn [hw_store].
  rewrite uint32_small by now apply shifted_mask_range.
  now rewrite reset_word_effect by assumption.
Qed.

Lemma x_get_run (x_Pin : Z) (p : GPIO_TypeDef) :
  x_get x_Pin p
  = Some (if Z.land (IDR_of p) (uint32 x_Pin) =? 0 then 0 else 1,
          p, [Load IDR (IDR_of p)]).
Proof.
  unfold x_get, bind, load, ret. cbn [hw_load app].
  rewrite (Z.eqb_sym 0).
  now destruct (Z.land (IDR_of p) (uint32 x_Pin) =? 0).
Qed.

(** The loop of [x_pulse] returns as soon as the fuel exceeds the counter,
    having made [qty] pairs of stores. *)
Lemma pulse_loop_run (x_Pin : Z) (n : nat) :
  forall (fuel : nat) (qty : Z) (p : GPIO_TypeDef),
    qty = Z.of_nat n -> qty < 2 ^ 32 -> (n < fuel)%nat ->
    let t := pulse_train (uint32 x_Pin) (uint32 (Z.shiftl x_Pin 16)) n in
    pulse_loop x_Pin fuel qty p = Some (tt, replay t p, t).
Proof.
  induction n as [|n IH]; intros fuel qty p Hq Hlt Hfuel t;
    (destruct fuel as [|fuel]; [lia|]).
  - subst qty. reflexivity.
  - cbn [pulse_loop].
    replace (qty =? 0) with false by (symmetry; apply Z.eqb_neq; lia).
    cbn [negb].
    assert (Hdec : uint32 (qty - 1) = Z.of_nat n)
      by (rewrite uint32_small; lia).
    specialize (IH fuel (uint32 (qty - 1))
                  (hw_store BSRR (uint32 (Z.shiftl x_Pin 16))
                     (hw_store BSRR (uint32 x_Pin) p))
                  Hdec ltac:(lia) ltac:(lia)).
    cbn zeta in IH.
    unfold bind at 1. unfold x_on at 1. unfold store at 1.
    unfold bind at 1. unfold x_off at 1. unfold store at 1.
    rewrite IH. reflexivity.
Qed.

Lemma x_pulse_run (x_Pin qty : Z) (p : GPIO_TypeDef) :
  0 <= qty < 2 ^ 32 ->
  let t :=
    pulse_train (uint32 x_Pin) (uint32 (Z.shiftl x_Pin 16)) (Z.to_nat qty) in
  x_pulse x_Pin qty p = Some (tt, replay t p, t).
Proof.
  intros Hq. apply pulse_loop_run; lia.
Qed.

Lemma lowered_raised (x_Pin : Z) (p : GPIO_TypeDef) :
  lowered x_Pin (raised x_Pin p) = lowered x_Pin p.
Proof.
  unfold lowered, raised. cbn. f_equal.
  apply Z.bits_inj'. intros i Hi.
  rewrite !Z.land_spec, Z.lor_spec, Z.lnot_spec by assumption.
  now destruct (Z.testbit (latch p) i), (Z.testbit x_Pin i).
Qed.

Lemma lowered_twice (x_Pin : Z) (p : GPIO_TypeDef) :
  lowered x_Pin (lowered x_Pin p) = lowered x_Pin p.
Proof.
  unfold lowered. cbn. f_equal.
  now rewrite <- Z.land_assoc, Z.land_diag.
Qed.

(** After at least one pulse the pin's bits are cleared and nothing else has
    changed. *)
Lemma replay_pulse_train (x_Pin : Z) (n : nat) (p : GPIO_TypeDef) :
  0 <= x_Pin < 2 ^ 16 ->
  replay (pulse_train x_Pin (Z.shiftl x_Pin 16) n) p
  = match n with O => p | S _ => lowered x_Pin p end.
Proof.
  intros Hx. revert p. induction n as [|n IH]; intros p; [reflexivity|].
  cbn [pulse_train]. unfold replay in *. cbn [fold_left apply_access hw_store].
  rewrite IH.
  cbn [latch pads loopback].
  rewrite (set_word_effect x_Pin), (reset_word_effect x_Pin) by assumption.
  change (mkPort (Z.land (Z.lor (latch p) x_Pin) (Z.lnot x_Pin))
            (pads p) (loopback p))
    with (lowered x_Pin (raised x_Pin p)).
  rewrite lowered_raised.
  destruct n; [reflexivity|apply lowered_twice].
Qed.

(** [x_pulse] on a pin: the accesses and the port afterwards. *)
Lemma x_pulse_pin_run (x_Pin qty : Z) (p : GPIO_TypeDef) :
  0 <= x_Pin < 2 ^ 16 -> 0 <= qty < 2 ^ 32 ->
  x_pulse x_Pin qty p
  = Some (tt, (if qty =? 0 then p else lowered x_Pin p),
          pulse_train x_Pin (Z.shiftl x_Pin 16) (Z.to_nat qty)).
Proof.
  intros Hx Hq. rewrite x_pulse_run by assumption. cbn zeta.
  rewrite (uint32_small x_Pin) by lia.
  rewrite (uint32_small (Z.shiftl x_Pin 16)) by now apply shifted_mask_range.
  rewrite replay_pulse_train by assumption.
  destruct (Z.eqb_spec qty 0) as [->|Hne]; [reflexivity|].
  destruct (Z.to_nat qty) eqn:E; [lia|reflexivity].
Qed.

Lemma raised_bits_set (x_Pin : Z) (p : GPIO_TypeDef) :
  Z.land (latch (raised x_Pin p)) x_Pin = x_Pin.
Proof.
  unfold raised. cbn [latch].
  apply Z.bits_inj'. intros i _.
  rewrite Z.land_spec, Z.lor_spec.
  now destruct (Z.testbit (latch p) i), (Z.testbit x_Pin i).
Qed.

(** The level of a pin right after it was raised, and after it was lowered. *)
Lemma driven_high_raised (x_Pin : Z) (p : GPIO_TypeDef) :
  0 < x_Pin -> driven_high x_Pin (raised x_Pin p) = true.
Proof.
  intros Hx. unfold driven_high. rewrite raised_bits_set.
  replace (x_Pin =? 0) with false; [reflexivity|].
  symmetry. apply Z.eqb_neq. lia.
Qed.

Lemma lowered_bits_clear (x_Pin : Z) (p : GPIO_TypeDef) :
  Z.land (latch (lowered x_Pin p)) x_Pin = 0.
Proof.
  unfold lowered. cbn [latch].
  rewrite <- Z.land_assoc, (Z.land_comm (Z.lnot x_Pin)).
  now rewrite Z.land_lnot_diag, Z.land_0_r.
Qed.

Lemma driven_high_lowered (x_Pin : Z) (p : GPIO_TypeDef) :
  driven_high x_Pin (lowered x_Pin p) = false.
Proof.
  unfold driven_high. now rewrite lowered_bits_clear.
Qed.

(** The levels that [n] pulses produce on the pin. *)
Lemma levels_pulse_train (x_Pin : Z) (n : nat) (p : GPIO_TypeDef) :
  0 < x_Pin < 2 ^ 16 ->
  levels x_Pin p (pulse_train x_Pin (Z.shiftl x_Pin 16) n) = square_wave n.
Proof.
  intros Hx. revert p. induction n as [|n IH]; intros p; [reflexivity|].
  cbn [pulse_train levels square_wave apply_access hw_store].
  cbn [latch pads loopback].
  rewrite (set_word_effect x_Pin), (reset_word_effect x_Pin) by lia.
  change (mkPort (Z.land (Z.lor (latch p) x_Pin) (Z.lnot x_Pin))
            (pads p) (loopback p))
    with (lowered x_Pin (raised x_Pin p)).
  change (mkPort (Z.lor (latch p) x_Pin) (pads p) (loopback p))
    with (raised x_Pin p).
  rewrite driven_high_raised, driven_high_lowered, IH by lia.
  reflexivity.
Qed.

Lemma input_x_get_run (x_Pin : Z) (p : GPIO_TypeDef) :
  GPIO_input_functions2.x_get x_Pin p = x_get x_Pin p.
Proof. reflexivity. Qed.

Lemma land_uint32 (a x : Z) :
  Z.land a (uint32 x) = Z.land (Z.land a x) (Z.ones 32).
Proof.
  unfold uint32. rewrite <- Z.land_ones by lia. now rewrite Z.land_assoc.
Qed.

(** X4: the getter of a single-bit pin, the mask [GPIO_PIN k] of pin number
    [k], returns the pin's bit of the input-data register. *)
Lemma x_get_single_bit (k : Z) (p : GPIO_TypeDef) :
  0 <= k < 16 ->
  result_of (x_get (GPIO_PIN k)) p = Some (Z.b2z (Z.testbit (IDR_of p) k)).
Proof.
  intros Hk. unfold result_of. rewrite x_get_run.
  rewrite uint32_small by (pose proof (GPIO_PIN_range k Hk); lia).
  f_equal. unfold GPIO_PIN. rewrite Z.shiftl_1_l.
  destruct (Z.testbit (IDR_of p) k) eqn:E.
  - replace (Z.land (IDR_of p) (2 ^ k) =? 0) with false; [reflexivity|].
    symmetry. apply Z.eqb_neq. intros H0.
    apply (f_equal (fun z => Z.testbit z k)) in H0.
    rewrite Z.land_spec, E, Z.pow2_bits_true, Z.bits_0 in H0 by lia.
    discriminate.
  - replace (Z.land (IDR_of p) (2 ^ k)) with 0; [reflexivity|].
    symmetry. apply Z.bits_inj'. intros i Hi.
    rewrite Z.land_spec, Z.bits_0.
    destruct (Z.eq_dec i k) as [->|Hne].
    + now rewrite E.
    + rewrite (Z.pow2_bits_false k i) by lia. apply andb_false_r.
Qed.

(** ** The stated properties *)

(** C2: for a pin, [x_on] makes exactly one access, a store of the pin's bit
    mask to the set/reset register; the mask lies in the lower half of the
    word, no register is loaded, and afterwards every bit of the mask is high
    in the output latch. *)
Theorem on_writes_set_bit (x_Pin : Z) (p : GPIO_TypeDef) :
  0 <= x_Pin < 2 ^ 16 ->
  x_on x_Pin p = Some (tt, raised x_Pin p, [Store BSRR x_Pin])
  /\ Z.shiftr x_Pin 16 = 0
  /\ (forall k, Z.testbit x_Pin k = true ->
                Z.testbit (latch (raised x_Pin p)) k = true).
Proof.
  intros Hx. split; [now apply x_on_run|]. split.
  - rewrite Z.shiftr_div_pow2 by lia. apply Z.div_small. lia.
  - intros k Hk. unfold raised. cbn [latch].
    rewrite Z.lor_spec, Hk. apply orb_true_r.
Qed.

Lemma on_writes_set_bit_witness :
  0 <= GPIO_PIN 5 < 2 ^ 16
  /\ x_on (GPIO_PIN 5) (mkPort 3 0 0)
  = Some (tt, raised (GPIO_PIN 5) (mkPort 3 0 0), [Store BSRR (GPIO_PIN 5)])
  /\ Z.shiftr (GPIO_PIN 5) 16 = 0
  /\ (forall k, Z.testbit (GPIO_PIN 5) k = true ->
                Z.testbit (latch (raised (GPIO_PIN 5) (mkPort 3 0 0))) k
                = true).
Proof.
  assert (Hx : 0 <= GPIO_PIN 5 < 2 ^ 16) by in_range.
  split; [exact Hx|].
  exact (on_writes_set_bit (GPIO_PIN 5) (mkPort 3 0 0) Hx).
Defined.

(** C3: for a pin, [x_off] makes exactly one access, a store of the pin's
    bit mask shifted left by 16 to the same set/reset register; the word has
    nothing in its lower half, no register is loaded, and afterwards every
    bit of the mask is low in the output latch. *)
Theorem off_writes_reset_bit (x_Pin : Z) (p : GPIO_TypeDef) :
  0 <= x_Pin < 2 ^ 16 ->
  x_off x_Pin p
  = Some (tt, lowered x_Pin p, [Store BSRR (Z.shiftl x_Pin 16)])
  /\ Z.land (Z.shiftl x_Pin 16) 65535 = 0
  /\ Z.shiftr (Z.shiftl x_Pin 16) 16 = x_Pin
  /\ (forall k, Z.testbit x_Pin k = true ->
                Z.testbit (latch (lowered x_Pin p)) k = false).
Proof.
  intros Hx. split; [now apply x_off_run|]. split; [|split].
  - apply Z.bits_inj'. intros i Hi.
    rewrite Z.land_spec, Z.bits_0, halfword_bits, Z.shiftl_spec by assumption.
    destruct (Z.ltb_spec i 16).
    + rewrite Z.testbit_neg_r by lia. reflexivity.
    + apply andb_false_r.
  - rewrite Z.shiftr_shiftl_l by lia. apply Z.shiftl_0_r.
  - intros k Hk.
    assert (0 <= k).
    { destruct (Z.neg_nonneg_cases k) as [Hn|Hn]; [|assumption].
      rewrite Z.testbit_neg_r in Hk by assumption. discriminate. }
    unfold lowered. cbn [latch].
    rewrite Z.land_spec, Z.lnot_spec, Hk by assumption. apply andb_false_r.
Qed.

Lemma off_writes_reset_bit_witness :
  0 <= GPIO_PIN 5 < 2 ^ 16
  /\ x_off (GPIO_PIN 5) (mkPort 35 0 0)
  = Some (tt, lowered (GPIO_PIN 5) (mkPort 35 0 0),
          [Store BSRR (Z.shiftl (GPIO_PIN 5) 16)])
  /\ Z.land (Z.shiftl (GPIO_PIN 5) 16) 65535 = 0
  /\ Z.shiftr (Z.shiftl (GPIO_PIN 5) 16) 16 = GPIO_PIN 5
  /\ (forall k, Z.testbit (GPIO_PIN 5) k = true ->
                Z.testbit (latch (lowered (GPIO_PIN 5) (mkPort 35 0 0))) k
                = false).
Proof.
  assert (Hx : 0 <= GPIO_PIN 5 < 2 ^ 16) by in_range.
  split; [exact Hx|].
  exact (off_writes_reset_bit (GPIO_PIN 5) (mkPort 35 0 0) Hx).
Defined.

(** C4: for every value [arg] of the parameter's type [uint32_t],
    [x_set arg] is [x_on] when [arg] is nonzero and [x_off] when [arg] is
    zero. *)
Theorem set_is_on_or_off (x_Pin arg : Z) :
  0 <= arg < 2 ^ 32 ->
  (arg <> 0 -> x_set x_Pin arg = x_on x_Pin)
  /\ (arg = 0 -> x_set x_Pin arg = x_off x_Pin).
Proof.
  intros _. unfold x_set. split; intros H.
  - apply Z.eqb_neq in H. now rewrite H.
  - now rewrite H.
Qed.

Lemma set_is_on_or_off_witness :
  (0 <= 7 < 2 ^ 32 /\ 7 <> 0 /\ 0 <= 0 < 2 ^ 32 /\ 0 = 0)
  /\ x_set (GPIO_PIN 5) 7 = x_on (GPIO_PIN 5)
  /\ x_set (GPIO_PIN 5) 0 = x_off (GPIO_PIN 5).
Proof.
  assert (R7 : 0 <= 7 < 2 ^ 32) by in_range.
  assert (H7 : 7 <> 0) by discriminate.
  assert (R0 : 0 <= 0 < 2 ^ 32) by in_range.
  assert (H0 : 0 = 0) by reflexivity.
  split; [exact (conj R7 (conj H7 (conj R0 H0)))|]. split.
  - exact (proj1 (set_is_on_or_off (GPIO_PIN 5) 7 R7) H7).
  - exact (proj2 (set_is_on_or_off (GPIO_PIN 5) 0 R0) H0).
Defined.

(** C5: for a pin, the getter (of the output and of the input-only variant)
    makes exactly one access, a load of the input-data register; it returns
    1 when the loaded word masked with the pin's bit mask is nonzero and 0
    otherwise, and it leaves the port as it was. *)
Theorem get_reads_input_bit (x_Pin : Z) (p : GPIO_TypeDef) :
  0 <= x_Pin < 2 ^ 16 ->
  x_get x_Pin p
  = Some (if Z.land (IDR_of p) x_Pin =? 0 then 0 else 1,
          p, [Load IDR (IDR_of p)])
  /\ GPIO_input_functions2.x_get x_Pin p = x_get x_Pin p.
Proof.
  intros Hx. split; [|reflexivity].
  rewrite x_get_run. now rewrite uint32_small by lia.
Qed.

Lemma get_reads_input_bit_witness :
  0 <= GPIO_PIN 5 < 2 ^ 16
  /\ x_get (GPIO_PIN 5) (mkPort 0 33 0)
  = Some (if Z.land (IDR_of (mkPort 0 33 0)) (GPIO_PIN 5) =? 0 then 0 else 1,
          mkPort 0 33 0, [Load IDR (IDR_of (mkPort 0 33 0))])
  /\ GPIO_input_functions2.x_get (GPIO_PIN 5) (mkPort 0 33 0)
     = x_get (GPIO_PIN 5) (mkPort 0 33 0).
Proof.
  assert (Hx : 0 <= GPIO_PIN 5 < 2 ^ 16) by in_range.
  split; [exact Hx|].
  exact (get_reads_input_bit (GPIO_PIN 5) (mkPort 0 33 0) Hx).
Defined.

(** C10: the result of the getter (of the output and of the input-only
    variant) is the same on any two ports whose input-data registers agree
    under the pin's bit mask, whatever the other bits are. *)
Theorem get_depends_on_own_bit (x_Pin : Z) (p1 p2 : GPIO_TypeDef) :
  Z.land (IDR_of p1) x_Pin = Z.land (IDR_of p2) x_Pin ->
  result_of (x_get x_Pin) p1 = result_of (x_get x_Pin) p2
  /\ result_of (GPIO_input_functions2.x_get x_Pin) p1
     = result_of (GPIO_input_functions2.x_get x_Pin) p2.
Proof.
  intros H.
  assert (G : result_of (x_get x_Pin) p1 = result_of (x_get x_Pin) p2).
  { unfold result_of. rewrite !x_get_run, !land_uint32. now rewrite H. }
  split; [exact G|].
  unfold result_of in *. now rewrite !input_x_get_run.
Qed.

Lemma get_depends_on_own_bit_witness :
  Z.land (IDR_of (mkPort 0 33 0)) (GPIO_PIN 5)
  = Z.land (IDR_of (mkPort 0 65504 0)) (GPIO_PIN 5)
  /\ result_of (x_get (GPIO_PIN 5)) (mkPort 0 33 0)
  = result_of (x_get (GPIO_PIN 5)) (mkPort 0 65504 0)
  /\ result_of (GPIO_input_functions2.x_get (GPIO_PIN 5)) (mkPort 0 33 0)
     = result_of (GPIO_input_functions2.x_get (GPIO_PIN 5))
         (mkPort 0 65504 0).
Proof.
  assert (H : Z.land (IDR_of (mkPort 0 33 0)) (GPIO_PIN 5)
              = Z.land (IDR_of (mkPort 0 65504 0)) (GPIO_PIN 5))
    by reflexivity.
  split; [exact H|].
  exact (get_depends_on_own_bit (GPIO_PIN 5) (mkPort 0 33 0)
           (mkPort 0 65504 0) H).
Defined.

Lemma loopback_reads_latch (x_Pin : Z) (p : GPIO_TypeDef) :
  Z.land (loopback p) x_Pin = x_Pin ->
  Z.land (IDR_of p) x_Pin = Z.land (latch p) x_Pin.
Proof.
  intros HL. apply Z.bits_inj'. intros i Hi.
  apply (f_equal (fun z => Z.testbit z i)) in HL.
  unfold IDR_of.
  rewrite Z.land_spec in HL.
  rewrite !Z.land_spec, Z.lor_spec, !Z.land_spec, Z.lnot_spec by assumption.
  destruct (Z.testbit (latch p) i), (Z.testbit (loopback p) i),
    (Z.testbit (pads p) i), (Z.testbit x_Pin i);
    cbn in *; congruence.
Qed.

Lemma on_then_get (x_Pin : Z) (p : GPIO_TypeDef) :
  0 < x_Pin < 2 ^ 16 -> Z.land (loopback p) x_Pin = x_Pin ->
  result_of (x_on x_Pin ;; x_get x_Pin) p = Some 1.
Proof.
  intros Hx HL. unfold result_of.
  rewrite (bind_run _ _ p _ _ _ _ _ _ (x_on_run x_Pin p ltac:(lia))
             (x_get_run x_Pin _)).
  rewrite uint32_small by lia.
  rewrite loopback_reads_latch by exact HL.
  rewrite raised_bits_set.
  replace (x_Pin =? 0) with false; [reflexivity|].
  symmetry. apply Z.eqb_neq. lia.
Qed.

Lemma off_then_get (x_Pin : Z) (p : GPIO_TypeDef) :
  0 < x_Pin < 2 ^ 16 -> Z.land (loopback p) x_Pin = x_Pin ->
  result_of (x_off x_Pin ;; x_get x_Pin) p = Some 0.
Proof.
  intros Hx HL. unfold result_of.
  rewrite (bind_run _ _ p _ _ _ _ _ _ (x_off_run x_Pin p ltac:(lia))
             (x_get_run x_Pin _)).
  rewrite uint32_small by lia.
  rewrite loopback_reads_latch by exact HL.
  now rewrite lowered_bits_clear.
Qed.

(** C7: on a port where the pin is looped back, so that its input shows its
    output latch, [x_set] of a boolean followed by the getter returns that
    boolean as 0 or 1; the getter returns 1 after [x_on] and 0 after
    [x_off]; and after [x_set] of any value of the parameter's type
    [uint32_t] it returns 1 exactly when that value is nonzero. *)
Theorem set_then_get_loopback (x_Pin : Z) (p : GPIO_TypeDef) :
  0 < x_Pin < 2 ^ 16 ->
  Z.land (loopback p) x_Pin = x_Pin ->
  (forall b : bool,
      result_of (x_set x_Pin (Z.b2z b) ;; x_get x_Pin) p = Some (Z.b2z b))
  /\ result_of (x_on x_Pin ;; x_get x_Pin) p = Some 1
  /\ result_of (x_off x_Pin ;; x_get x_Pin) p = Some 0
  /\ (forall arg : Z,
         0 <= arg < 2 ^ 32 ->
         result_of (x_set x_Pin arg ;; x_get x_Pin) p
         = Some (if arg =? 0 then 0 else 1)).
Proof.
  intros Hx HL.
  pose proof (on_then_get x_Pin p Hx HL) as Hon.
  pose proof (off_then_get x_Pin p Hx HL) as Hoff.
  assert (Hany : forall arg : Z,
             result_of (x_set x_Pin arg ;; x_get x_Pin) p
             = Some (if arg =? 0 then 0 else 1)).
  { intros arg. unfold x_set. now destruct (arg =? 0). }
  split; [|split; [exact Hon|split; [exact Hoff|]]].
  - intros [|]; [exact (Hany 1)|exact (Hany 0)].
  - intros arg _. exact (Hany arg).
Qed.

Lemma set_then_get_loopback_witness :
  (0 < GPIO_PIN 5 < 2 ^ 16
   /\ Z.land (loopback (mkPort 3 64 32)) (GPIO_PIN 5) = GPIO_PIN 5)
  /\ (forall b : bool,
         result_of (x_set (GPIO_PIN 5) (Z.b2z b) ;; x_get (GPIO_PIN 5))
           (mkPort 3 64 32)
         = Some (Z.b2z b))
  /\ result_of (x_on (GPIO_PIN 5) ;; x_get (GPIO_PIN 5)) (mkPort 3 64 32)
     = Some 1
  /\ result_of (x_off (GPIO_PIN 5) ;; x_get (GPIO_PIN 5)) (mkPort 3 64 32)
     = Some 0
  /\ (0 <= 7 < 2 ^ 32
      /\ result_of (x_set (GPIO_PIN 5) 7 ;; x_get (GPIO_PIN 5))
           (mkPort 3 64 32)
         = Some (if 7 =? 0 then 0 else 1)).
Proof.
  assert (Hx : 0 < GPIO_PIN 5 < 2 ^ 16) by (vm_compute; split; reflexivity).
  assert (HL : Z.land (loopback (mkPort 3 64 32)) (GPIO_PIN 5) = GPIO_PIN 5)
    by reflexivity.
  assert (R7 : 0 <= 7 < 2 ^ 32) by in_range.
  split; [split; assumption|].
  pose proof (set_then_get_loopback (GPIO_PIN 5) (mkPort 3 64 32) Hx HL)
    as (Hb & Hon & Hoff & Hany).
  split; [exact Hb|]. split; [exact Hon|]. split; [exact Hoff|].
  split; [exact R7|exact (Hany 7 R7)].
Defined.

(** Without the loop-back the getter shows the level applied from outside,
    not the latch. *)
Example on_then_get_input_pin :
  result_of (x_on (GPIO_PIN 5) ;; x_get (GPIO_PIN 5)) (mkPort 0 0 0) = Some 0.
Proof. reflexivity. Qed.

Lemma same_outside_latch (x_Pin l : Z) (p : GPIO_TypeDef) :
  (forall j, Z.testbit x_Pin j = false ->
             Z.testbit l j = Z.testbit (latch p) j) ->
  same_outside x_Pin p (mkPort l (pads p) (loopback p)).
Proof.
  intros H. unfold same_outside. cbn [pads loopback latch].
  split; [|split; reflexivity].
  intros j Hj. split; [now apply H|].
  unfold IDR_of. cbn [pads loopback latch].
  rewrite !Z.lor_spec, !Z.land_spec. now rewrite H.
Qed.

Lemma same_outside_refl (x_Pin : Z) (p : GPIO_TypeDef) :
  same_outside x_Pin p p.
Proof. unfold same_outside. tauto. Qed.

Lemma same_outside_raised (x_Pin : Z) (p : GPIO_TypeDef) :
  same_outside x_Pin p (raised x_Pin p).
Proof.
  apply same_outside_latch. intros j Hj.
  rewrite Z.lor_spec, Hj. apply orb_false_r.
Qed.

Lemma same_outside_lowered (x_Pin : Z) (p : GPIO_TypeDef) :
  same_outside x_Pin p (lowered x_Pin p).
Proof.
  apply same_outside_latch. intros j Hj.
  destruct (Z.neg_nonneg_cases j) as [Hn|Hn].
  - now rewrite !Z.testbit_neg_r.
  - rewrite Z.land_spec, Z.lnot_spec, Hj by assumption. apply andb_true_r.
Qed.

Lemma masked_pulse_train (x_Pin : Z) (n : nat) :
  forallb (masked_access x_Pin) (pulse_train x_Pin (Z.shiftl x_Pin 16) n)
  = true.
Proof.
  induction n as [|n IH]; [reflexivity|].
  cbn [pulse_train forallb masked_access].
  now rewrite !Z.eqb_refl, IH, orb_true_r.
Qed.

Lemma masked_not_ODR (x_Pin : Z) (t : list access) :
  forallb (masked_access x_Pin) t = true ->
  forallb (fun a => negb (touches ODR a)) t = true.
Proof.
  induction t as [|a t IH]; [reflexivity|].
  cbn [forallb]. intros H. apply andb_true_iff in H. destruct H as [Ha Ht].
  rewrite (IH Ht), andb_true_r.
  destruct a as [[| |] v|[| |] v]; cbn in Ha |- *; congruence.
Qed.

(** What each call does on a pin. *)
Lemma call_run (x_Pin : Z) (o : operation) (p : GPIO_TypeDef) :
  0 <= x_Pin < 2 ^ 16 -> well_typed o ->
  exists r q t,
    call x_Pin o p = Some (r, q, t)
    /\ (q = p \/ q = raised x_Pin p \/ q = lowered x_Pin p)
    /\ forallb (masked_access x_Pin) t = true
    /\ length t = cost o.
Proof.
  intros Hx Ho. destruct o as [| |arg| |qty]; cbn [call well_typed cost] in *.
  - exists 0, (raised x_Pin p), [Store BSRR x_Pin].
    unfold bind. rewrite x_on_run by assumption. cbn.
    rewrite Z.eqb_refl. auto.
  - exists 0, (lowered x_Pin p), [Store BSRR (Z.shiftl x_Pin 16)].
    unfold bind. rewrite x_off_run by assumption. cbn.
    rewrite Z.eqb_refl, orb_true_r. auto.
  - unfold x_set. destruct (arg =? 0); cbn [negb].
    + exists 0, (lowered x_Pin p), [Store BSRR (Z.shiftl x_Pin 16)].
      unfold bind. rewrite x_off_run by assumption. cbn.
      rewrite Z.eqb_refl, orb_true_r. auto.
    + exists 0, (raised x_Pin p), [Store BSRR x_Pin].
      unfold bind. rewrite x_on_run by assumption. cbn.
      rewrite Z.eqb_refl. auto.
  - eexists _, p, _. rewrite x_get_run. split; [reflexivity|]. auto.
  - exists 0, (if qty =? 0 then p else lowered x_Pin p),
      (pulse_train x_Pin (Z.shiftl x_Pin 16) (Z.to_nat qty)).
    unfold bind. rewrite x_pulse_pin_run by assumption.
    unfold ret. rewrite app_nil_r.
    split; [reflexivity|]. split; [destruct (qty =? 0); auto|].
    split; [apply masked_pulse_train|].
    clear. induction (Z.to_nat qty) as [|n IH]; [reflexivity|].
    cbn [pulse_train length]. rewrite IH. lia.
Qed.

(** C1: whatever operation of a pin is called, every bit of the output
    latch and of the input-data register that is outside the pin's mask is
    afterwards what it was before; every access the operation makes is a
    store of the pin's mask or of the mask shifted into the upper half to the
    set/reset register, or the getter's load of the input-data register, and
    none is an access to the output-data register. *)
Theorem other_pins_unchanged (x_Pin : Z) (o : operation) (p : GPIO_TypeDef) :
  0 <= x_Pin < 2 ^ 16 -> well_typed o ->
  exists r q t,
    call x_Pin o p = Some (r, q, t)
    /\ same_outside x_Pin p q
    /\ forallb (masked_access x_Pin) t = true
    /\ forallb (fun a => negb (touches ODR a)) t = true.
Proof.
  intros Hx Ho.
  destruct (call_run x_Pin o p Hx Ho) as (r & q & t & Hc & Hq & Ht & _).
  exists r, q, t. split; [exact Hc|]. split.
  - destruct Hq as [->|[->| ->]].
    + apply same_outside_refl.
    + apply same_outside_raised.
    + apply same_outside_lowered.
  - split; [exact Ht|]. now apply masked_not_ODR with x_Pin.
Qed.

Lemma other_pins_unchanged_witness :
  (0 <= GPIO_PIN 5 < 2 ^ 16 /\ well_typed (Pulse 3))
  /\ exists r q t,
      call (GPIO_PIN 5) (Pulse 3) (mkPort 65535 0 255) = Some (r, q, t)
      /\ same_outside (GPIO_PIN 5) (mkPort 65535 0 255) q
      /\ forallb (masked_access (GPIO_PIN 5)) t = true
      /\ forallb (fun a => negb (touches ODR a)) t = true.
Proof.
  assert (Hx : 0 <= GPIO_PIN 5 < 2 ^ 16) by in_range.
  assert (Ho : well_typed (Pulse 3)) by in_range.
  split; [split; assumption|].
  exact (other_pins_unchanged (GPIO_PIN 5) (Pulse 3) (mkPort 65535 0 255)
           Hx Ho).
Defined.

Lemma count_pulse_train (x_Pin : Z) (n : nat) :
  0 < x_Pin < 2 ^ 16 ->
  let t := pulse_train x_Pin (Z.shiftl x_Pin 16) n in
  count_word x_Pin t = n
  /\ count_word (Z.shiftl x_Pin 16) t = n
  /\ length t = (2 * n)%nat.
Proof.
  intros Hx.
  assert (Hne : Z.shiftl x_Pin 16 <> x_Pin)
    by (rewrite Z.shiftl_mul_pow2 by lia; lia).
  cbn zeta. induction n as [|n (IH1 & IH2 & IH3)]; [now cbn|].
  cbn [pulse_train count_word length].
  rewrite !Z.eqb_refl.
  replace (Z.shiftl x_Pin 16 =? x_Pin) with false
    by (symmetry; now apply Z.eqb_neq).
  replace (x_Pin =? Z.shiftl x_Pin 16) with false
    by (symmetry; apply Z.eqb_neq; congruence).
  rewrite IH1, IH2, IH3. repeat split; lia.
Qed.

(** C6: for a pin and an [unsigned] count [n], [x_pulse n] returns after
    exactly the accesses of [n] pulses: a store of the pin's mask followed by
    a store of the mask shifted into the upper half, [n] times, that is [n]
    set-writes and [n] reset-writes in [2 n] accesses, which take the pin
    high then low [n] times; with [n = 0] it makes no access and leaves the
    port as it was, and with [n >= 1] every bit of the pin is low in the
    output latch afterwards. *)
Theorem pulse_makes_n_pulses (x_Pin n : Z) (p : GPIO_TypeDef) :
  0 < x_Pin < 2 ^ 16 -> 0 <= n < 2 ^ 32 ->
  let t := pulse_train x_Pin (Z.shiftl x_Pin 16) (Z.to_nat n) in
  let q := if n =? 0 then p else lowered x_Pin p in
  x_pulse x_Pin n p = Some (tt, q, t)
  /\ (count_word x_Pin t = Z.to_nat n
      /\ count_word (Z.shiftl x_Pin 16) t = Z.to_nat n
      /\ length t = (2 * Z.to_nat n)%nat)
  /\ levels x_Pin p t = square_wave (Z.to_nat n)
  /\ (n = 0 -> x_pulse x_Pin n p = Some (tt, p, []))
  /\ (1 <= n ->
      driven_high x_Pin q = false
      /\ forall k, Z.testbit x_Pin k = true -> Z.testbit (latch q) k = false).
Proof.
  intros Hx Hn t q.
  assert (Hrun : x_pulse x_Pin n p = Some (tt, q, t))
    by (apply x_pulse_pin_run; lia).
  split; [exact Hrun|]. split; [now apply count_pulse_train|].
  split; [now apply levels_pulse_train|]. split.
  - intros ->. exact Hrun.
  - intros H1. subst q.
    replace (n =? 0) with false by (symmetry; apply Z.eqb_neq; lia).
    split; [apply driven_high_lowered|].
    intros k Hk.
    pose proof (lowered_bits_clear x_Pin p) as H0.
    apply (f_equal (fun z => Z.testbit z k)) in H0.
    rewrite Z.land_spec, Hk, Z.bits_0, andb_true_r in H0. exact H0.
Qed.

Lemma pulse_makes_n_pulses_witness :
  (0 < GPIO_PIN 5 < 2 ^ 16 /\ 0 <= 3 < 2 ^ 32)
  /\ x_pulse (GPIO_PIN 5) 3 (mkPort 33 0 0)
     = Some (tt, mkPort 1 0 0,
             [Store BSRR 32; Store BSRR 2097152;
              Store BSRR 32; Store BSRR 2097152;
              Store BSRR 32; Store BSRR 2097152])
  /\ levels (GPIO_PIN 5) (mkPort 33 0 0)
       (pulse_train (GPIO_PIN 5) (Z.shiftl (GPIO_PIN 5) 16) 3)
     = [true; false; true; false; true; false].
Proof.
  assert (Hx : 0 < GPIO_PIN 5 < 2 ^ 16) by (vm_compute; split; reflexivity).
  assert (Hn : 0 <= 3 < 2 ^ 32) by in_range.
  pose proof (pulse_makes_n_pulses (GPIO_PIN 5) 3 (mkPort 33 0 0) Hx Hn)
    as (Hrun & _ & Hlev & _).
  split; [split; assumption|]. split; [exact Hrun|exact Hlev].
Defined.

(** *** Idempotence *)

Lemma store_twice_port (w : Z) (p : GPIO_TypeDef) :
  hw_store BSRR w (hw_store BSRR w p) = hw_store BSRR w p.
Proof.
  cbn [hw_store latch pads loopback]. now rewrite BSRR_effect_twice.
Qed.

Lemma store_twice (w : Z) (x_Pin : Z) (p : GPIO_TypeDef) :
  port_after (store BSRR w ;; store BSRR w) p = port_after (store BSRR w) p
  /\ edges_of x_Pin (store BSRR w ;; store BSRR w) p
     = edges_of x_Pin (store BSRR w) p.
Proof.
  unfold port_after, edges_of, bind, store.
  cbn [app levels edges apply_access].
  rewrite store_twice_port. split; [reflexivity|].
  now destruct (driven_high x_Pin p), (driven_high x_Pin (hw_store BSRR w p)).
Qed.

Lemma pulse_train_app (hi lo : Z) (n m : nat) :
  pulse_train hi lo n ++ pulse_train hi lo m = pulse_train hi lo (n + m).
Proof.
  induction n as [|n IH]; [reflexivity|].
  cbn [pulse_train Nat.add app]. now rewrite IH.
Qed.

(** Pulses add up. *)
Lemma x_pulse_seq (x_Pin n m : Z) (p : GPIO_TypeDef) :
  0 <= x_Pin < 2 ^ 16 -> 0 <= n -> 0 <= m -> n + m < 2 ^ 32 ->
  (x_pulse x_Pin n ;; x_pulse x_Pin m) p = x_pulse x_Pin (n + m) p.
Proof.
  intros Hx Hn Hm Hnm.
  rewrite (bind_run _ _ p _ _ _ _ _ _
             (x_pulse_pin_run x_Pin n p Hx ltac:(lia))
             (x_pulse_pin_run x_Pin m _ Hx ltac:(lia))).
  rewrite x_pulse_pin_run by lia.
  rewrite pulse_train_app, <- Z2Nat.inj_add by lia.
  do 3 f_equal.
  destruct (Z.eqb_spec n 0), (Z.eqb_spec m 0), (Z.eqb_spec (n + m) 0);
    try lia; try reflexivity.
  apply lowered_twice.
Qed.

Lemma edges_square_wave (prev : bool) (k : nat) :
  edges prev (square_wave (S k))
  = ((if prev then 1 else 2) + 2 * k)%nat.
Proof.
  assert (H : forall j, edges false (square_wave j) = (2 * j)%nat).
  { induction j as [|j IH]; [reflexivity|].
    cbn [square_wave edges xorb]. rewrite IH. lia. }
  cbn [square_wave edges]. rewrite H. now destruct prev; cbn.
Qed.

(** C8: calling [x_on], [x_off] or [x_set arg] twice in succession leaves
    the port as one call does and produces the same edges on the pin; two
    calls of the getter leave the port untouched and return twice what one
    call returns.  [x_pulse] is different: the pulses of successive calls
    add up, so two calls of [x_pulse n] produce [2 n] more edges than one. *)
Theorem idempotent_except_pulse (x_Pin : Z) (p : GPIO_TypeDef) :
  (port_after (x_on x_Pin ;; x_on x_Pin) p = port_after (x_on x_Pin) p
   /\ edges_of x_Pin (x_on x_Pin ;; x_on x_Pin) p
      = edges_of x_Pin (x_on x_Pin) p)
  /\ (port_after (x_off x_Pin ;; x_off x_Pin) p = port_after (x_off x_Pin) p
      /\ edges_of x_Pin (x_off x_Pin ;; x_off x_Pin) p
         = edges_of x_Pin (x_off x_Pin) p)
  /\ (forall arg : Z,
         port_after (x_set x_Pin arg ;; x_set x_Pin arg) p
         = port_after (x_set x_Pin arg) p
         /\ edges_of x_Pin (x_set x_Pin arg ;; x_set x_Pin arg) p
            = edges_of x_Pin (x_set x_Pin arg) p)
  /\ (port_after (x_get x_Pin ;; x_get x_Pin) p = Some p
      /\ port_after (x_get x_Pin) p = Some p
      /\ exists r,
          result_of (x_get x_Pin) p = Some r
          /\ result_of (a <- x_get x_Pin ;; b <- x_get x_Pin ;; ret (a, b)) p
             = Some (r, r))
  /\ (forall n m : Z,
         0 < x_Pin < 2 ^ 16 -> 0 <= n -> 0 <= m -> n + m < 2 ^ 32 ->
         (x_pulse x_Pin n ;; x_pulse x_Pin m) p = x_pulse x_Pin (n + m) p)
  /\ (forall n : Z,
         0 < x_Pin < 2 ^ 16 -> 1 <= n -> n + n < 2 ^ 32 ->
         exists e,
           edges_of x_Pin (x_pulse x_Pin n) p = Some e
           /\ edges_of x_Pin (x_pulse x_Pin n ;; x_pulse x_Pin n) p
              = Some (e + 2 * Z.to_nat n)%nat).
Proof.
  split; [apply store_twice|]. split; [apply store_twice|].
  split; [intros arg; unfold x_set; destruct (arg =? 0); apply store_twice|].
  split.
  { split; [|split].
    - unfold port_after, bind. now rewrite !x_get_run.
    - unfold port_after. now rewrite x_get_run.
    - eexists. unfold result_of, bind. rewrite !x_get_run.
      split; reflexivity. }
  split.
  { intros n m Hx Hn Hm Hnm. apply x_pulse_seq; lia. }
  intros n Hx Hn Hnn.
  unfold edges_of. rewrite x_pulse_seq by lia.
  rewrite !x_pulse_pin_run by lia.
  rewrite !levels_pulse_train by assumption.
  eexists. split; [reflexivity|]. f_equal.
  rewrite Z2Nat.inj_add by lia.
  destruct (Z.to_nat n) as [|k] eqn:E; [lia|].
  cbn [Nat.add]. rewrite !edges_square_wave. lia.
Qed.

Lemma idempotent_except_pulse_witness :
  (0 < GPIO_PIN 5 < 2 ^ 16 /\ 1 <= 3 /\ 3 + 3 < 2 ^ 32)
  /\ (x_pulse (GPIO_PIN 5) 3 ;; x_pulse (GPIO_PIN 5) 3) (mkPort 33 0 0)
     = x_pulse (GPIO_PIN 5) (3 + 3) (mkPort 33 0 0)
  /\ exists e,
      edges_of (GPIO_PIN 5) (x_pulse (GPIO_PIN 5) 3) (mkPort 33 0 0) = Some e
      /\ edges_of (GPIO_PIN 5) (x_pulse (GPIO_PIN 5) 3 ;; x_pulse (GPIO_PIN 5) 3)
           (mkPort 33 0 0)
         = Some (e + 2 * Z.to_nat 3)%nat.
Proof.
  assert (Hx : 0 < GPIO_PIN 5 < 2 ^ 16) by (vm_compute; split; reflexivity).
  assert (H1 : 1 <= 3) by lia.
  assert (H6 : 3 + 3 < 2 ^ 32) by lia.
  pose proof (idempotent_except_pulse (GPIO_PIN 5) (mkPort 33 0 0))
    as (_ & _ & _ & _ & Hseq & Hedges).
  split; [exact (conj Hx (conj H1 H6))|]. split.
  - apply Hseq; [exact Hx|lia|lia|exact H6].
  - apply Hedges; assumption.
Defined.

(** *** Termination *)

(** With no more fuel than the counter the loop of [x_pulse] does not
    return: it makes as many iterations as the counter says. *)
Lemma pulse_loop_starves (x_Pin : Z) (fuel : nat) :
  forall (qty : Z) (p : GPIO_TypeDef),
    0 <= qty < 2 ^ 32 -> (fuel <= Z.to_nat qty)%nat ->
    pulse_loop x_Pin fuel qty p = None.
Proof.
  induction fuel as [|fuel IH]; intros qty p Hq Hf; [reflexivity|].
  cbn [pulse_loop].
  replace (qty =? 0) with false by (symmetry; apply Z.eqb_neq; lia).
  cbn [negb]. unfold bind at 1. unfold x_on at 1. unfold store at 1.
  unfold bind at 1. unfold x_off at 1. unfold store at 1.
  rewrite IH; [reflexivity| |]; rewrite uint32_small; lia.
Qed.

Lemma length_pulse_train (hi lo : Z) (n : nat) :
  length (pulse_train hi lo n) = (2 * n)%nat.
Proof.
  induction n as [|n IH]; [reflexivity|].
  cbn [pulse_train length]. rewrite IH. lia.
Qed.

(** C9: every call of an operation returns, for every mask, port and
    argument: [x_on], [x_off], [x_set] and the getter after one access,
    [x_pulse qty] after [2 qty] accesses.  The loop of [x_pulse] returns
    with any fuel above [qty], and with no less, as its counter goes down by
    one in each iteration until it is zero. *)
Theorem every_operation_terminates (x_Pin : Z) (p : GPIO_TypeDef) :
  (forall o : operation,
      well_typed o ->
      exists r q t, call x_Pin o p = Some (r, q, t) /\ length t = cost o)
  /\ (forall (qty : Z) (fuel : nat),
         0 <= qty < 2 ^ 32 -> (Z.to_nat qty < fuel)%nat ->
         pulse_loop x_Pin fuel qty p = x_pulse x_Pin qty p
         /\ x_pulse x_Pin qty p <> None)
  /\ (forall (qty : Z) (fuel : nat),
         0 <= qty < 2 ^ 32 -> (fuel <= Z.to_nat qty)%nat ->
         pulse_loop x_Pin fuel qty p = None).
Proof.
  split; [|split].
  - intros [| |arg| |qty] Ho; cbn [call cost well_typed] in *.
    + eexists _, _, _. split; reflexivity.
    + eexists _, _, _. split; reflexivity.
    + unfold x_set. destruct (arg =? 0);
        eexists _, _, _; split; reflexivity.
    + eexists _, _, _. rewrite x_get_run. split; reflexivity.
    + eexists _, _, _. unfold bind. rewrite x_pulse_run by assumption.
      cbn zeta. unfold ret. rewrite app_nil_r. split; [reflexivity|].
      apply length_pulse_train.
  - intros qty fuel Hq Hf.
    rewrite x_pulse_run by assumption. cbn zeta.
    split; [|discriminate].
    apply pulse_loop_run; lia.
  - intros qty fuel Hq Hf. now apply pulse_loop_starves.
Qed.

Lemma every_operation_terminates_witness :
  (well_typed (Pulse 4) /\ 0 <= 4 < 2 ^ 32 /\ (Z.to_nat 4 < 7)%nat
   /\ (3 <= Z.to_nat 4)%nat)
  /\ (exists r q t,
         call (GPIO_PIN 5) (Pulse 4) (mkPort 0 0 0) = Some (r, q, t)
         /\ length t = cost (Pulse 4))
  /\ (pulse_loop (GPIO_PIN 5) 7 4 (mkPort 0 0 0)
      = x_pulse (GPIO_PIN 5) 4 (mkPort 0 0 0)
      /\ x_pulse (GPIO_PIN 5) 4 (mkPort 0 0 0) <> None)
  /\ pulse_loop (GPIO_PIN 5) 3 4 (mkPort 0 0 0) = None.
Proof.
  assert (Ho : well_typed (Pulse 4)) by in_range.
  assert (Hq : 0 <= 4 < 2 ^ 32) by in_range.
  assert (Hf : (Z.to_nat 4 < 7)%nat) by (vm_compute; lia).
  assert (Hs : (3 <= Z.to_nat 4)%nat) by (vm_compute; lia).
  pose proof (every_operation_terminates (GPIO_PIN 5) (mkPort 0 0 0))
    as (Hcall & Hloop & Hstarve).
  split; [exact (conj Ho (conj Hq (conj Hf Hs)))|]. split; [|split].
  - apply Hcall. exact Ho.
  - apply Hloop; assumption.
  - apply Hstarve; assumption.
Defined.

(** ** Further properties of the generated functions *)

(** *** How calls compose *)

Lemma port_after_bind {A B : Type} (m : M A) (f : A -> M B) p a q t :
  m p = Some (a, q, t) -> port_after (bind m f) p = port_after (f a) q.
Proof.
  intros Hm. unfold port_after, bind. rewrite Hm.
  now destruct (f a q) as [[[b q'] t']|].
Qed.

Lemma result_of_bind {A B : Type} (m : M A) (f : A -> M B) p a q t :
  m p = Some (a, q, t) -> result_of (bind m f) p = result_of (f a) q.
Proof.
  intros Hm. unfold result_of, bind. rewrite Hm.
  now destruct (f a q) as [[[b q'] t']|].
Qed.

(** The port a call leaves. *)
Lemma call_settles (x_Pin : Z) (o : operation) (p : GPIO_TypeDef) :
  0 <= x_Pin < 2 ^ 16 -> well_typed o ->
  exists r t, call x_Pin o p = Some (r, settle x_Pin o p, t).
Proof.
  intros Hx Ho. unfold settle.
  destruct o as [| |arg| |qty]; cbn [call well_typed effect] in *.
  - eexists _, _. unfold bind. rewrite x_on_run by assumption. reflexivity.
  - eexists _, _. unfold bind. rewrite x_off_run by assumption. reflexivity.
  - unfold x_set, bind. destruct (arg =? 0); cbn [negb].
    + eexists _, _. rewrite x_off_run by assumption. reflexivity.
    + eexists _, _. rewrite x_on_run by assumption. reflexivity.
  - eexists _, _. rewrite x_get_run. reflexivity.
  - eexists _, _. unfold bind. rewrite x_pulse_pin_run by assumption.
    destruct (qty =? 0); reflexivity.
Qed.

Lemma raised_twice (x_Pin : Z) (p : GPIO_TypeDef) :
  raised x_Pin (raised x_Pin p) = raised x_Pin p.
Proof.
  unfold raised. cbn. f_equal. now rewrite <- Z.lor_assoc, Z.lor_diag.
Qed.

Lemma raised_lowered (x_Pin : Z) (p : GPIO_TypeDef) :
  raised x_Pin (lowered x_Pin p) = raised x_Pin p.
Proof.
  unfold lowered, raised. cbn. f_equal.
  apply Z.bits_inj'. intros i Hi.
  rewrite !Z.lor_spec, Z.land_spec, Z.lnot_spec by assumption.
  now destruct (Z.testbit (latch p) i), (Z.testbit x_Pin i).
Qed.

(** X1: of two calls on the same pin the later one decides the port, when
    it stores at all: after any operation followed by [x_on], [x_off],
    [x_set] or [x_pulse] of a nonzero count the port is what the second
    call alone leaves. *)
Theorem last_write_wins (x_Pin : Z) (o1 o2 : operation) (p : GPIO_TypeDef) :
  0 <= x_Pin < 2 ^ 16 -> well_typed o1 -> well_typed o2 ->
  drives o2 = true ->
  port_after (call x_Pin o1 ;; call x_Pin o2) p
  = port_after (call x_Pin o2) p.
Proof.
  intros Hx H1 H2 Hd.
  destruct (call_settles x_Pin o1 p Hx H1) as (r1 & t1 & E1).
  rewrite (port_after_bind _ _ _ _ _ _ E1).
  destruct (call_settles x_Pin o2 p Hx H2) as (r2 & t2 & E2).
  destruct (call_settles x_Pin o2 (settle x_Pin o1 p) Hx H2)
    as (r3 & t3 & E3).
  unfold port_after. rewrite E2, E3. f_equal.
  unfold drives in Hd. unfold settle.
  destruct (effect o2); [discriminate| |];
    destruct (effect o1);
    auto using raised_twice, raised_lowered, lowered_raised, lowered_twice.
Qed.

Lemma last_write_wins_witness :
  (0 <= GPIO_PIN 5 < 2 ^ 16 /\ well_typed (Pulse 2) /\ well_typed (SetTo 9)
   /\ drives (SetTo 9) = true)
  /\ port_after (call (GPIO_PIN 5) (Pulse 2) ;; call (GPIO_PIN 5) (SetTo 9))
       (mkPort 1 0 0)
     = port_after (call (GPIO_PIN 5) (SetTo 9)) (mkPort 1 0 0).
Proof.
  assert (Hx : 0 <= GPIO_PIN 5 < 2 ^ 16) by in_range.
  assert (H1 : well_typed (Pulse 2)) by in_range.
  assert (H2 : well_typed (SetTo 9)) by in_range.
  assert (Hd : drives (SetTo 9) = true) by reflexivity.
  split; [exact (conj Hx (conj H1 (conj H2 Hd)))|].
  exact (last_write_wins (GPIO_PIN 5) (Pulse 2) (SetTo 9) (mkPort 1 0 0)
           Hx H1 H2 Hd).
Defined.

(** *** Two pins of one port *)

Lemma disjoint_bits (a b i : Z) :
  Z.land a b = 0 -> Z.testbit a i && Z.testbit b i = false.
Proof.
  intros H. rewrite <- Z.land_spec, H. apply Z.bits_0.
Qed.

Lemma raised_raised_comm (a b : Z) (p : GPIO_TypeDef) :
  raised a (raised b p) = raised b (raised a p).
Proof.
  unfold raised. cbn. f_equal.
  now rewrite <- !Z.lor_assoc, (Z.lor_comm a b).
Qed.

Lemma lowered_lowered_comm (a b : Z) (p : GPIO_TypeDef) :
  lowered a (lowered b p) = lowered b (lowered a p).
Proof.
  unfold lowered. cbn. f_equal.
  now rewrite <- !Z.land_assoc, (Z.land_comm (Z.lnot a)).
Qed.

Lemma raised_lowered_comm (a b : Z) (p : GPIO_TypeDef) :
  Z.land a b = 0 ->
  raised a (lowered b p) = lowered b (raised a p).
Proof.
  intros Hd. unfold raised, lowered. cbn. f_equal.
  apply Z.bits_inj'. intros i Hi.
  pose proof (disjoint_bits a b i Hd) as Hi'.
  rewrite Z.lor_spec, !Z.land_spec, Z.lor_spec, Z.lnot_spec by assumption.
  destruct (Z.testbit (latch p) i), (Z.testbit a i), (Z.testbit b i);
    cbn in *; congruence.
Qed.

(** X2: calls on two pins of a port whose masks share no bit can be made in
    either order: the port afterwards is the same. *)
Theorem pins_commute (x_A x_B : Z) (oa ob : operation) (p : GPIO_TypeDef) :
  0 <= x_A < 2 ^ 16 -> 0 <= x_B < 2 ^ 16 -> Z.land x_A x_B = 0 ->
  well_typed oa -> well_typed ob ->
  port_after (call x_A oa ;; call x_B ob) p
  = port_after (call x_B ob ;; call x_A oa) p.
Proof.
  intros HA HB Hd Ha Hb.
  destruct (call_settles x_A oa p HA Ha) as (r1 & t1 & E1).
  destruct (call_settles x_B ob p HB Hb) as (r2 & t2 & E2).
  rewrite (port_after_bind _ _ _ _ _ _ E1), (port_after_bind _ _ _ _ _ _ E2).
  destruct (call_settles x_B ob (settle x_A oa p) HB Hb) as (r3 & t3 & E3).
  destruct (call_settles x_A oa (settle x_B ob p) HA Ha) as (r4 & t4 & E4).
  unfold port_after. rewrite E3, E4. f_equal.
  assert (Hd' : Z.land x_B x_A = 0) by now rewrite Z.land_comm.
  unfold settle.
  destruct (effect oa), (effect ob); try reflexivity;
    auto using raised_raised_comm, lowered_lowered_comm, raised_lowered_comm.
  symmetry. now apply raised_lowered_comm.
Qed.

Lemma pins_commute_witness :
  (0 <= GPIO_PIN 5 < 2 ^ 16 /\ 0 <= GPIO_PIN 9 < 2 ^ 16
   /\ Z.land (GPIO_PIN 5) (GPIO_PIN 9) = 0
   /\ well_typed On /\ well_typed (Pulse 2))
  /\ port_after (call (GPIO_PIN 5) On ;; call (GPIO_PIN 9) (Pulse 2))
       (mkPort 512 0 0)
     = port_after (call (GPIO_PIN 9) (Pulse 2) ;; call (GPIO_PIN 5) On)
         (mkPort 512 0 0).
Proof.
  assert (HA : 0 <= GPIO_PIN 5 < 2 ^ 16) by in_range.
  assert (HB : 0 <= GPIO_PIN 9 < 2 ^ 16) by in_range.
  assert (Hd : Z.land (GPIO_PIN 5) (GPIO_PIN 9) = 0) by reflexivity.
  assert (Ha : well_typed On) by exact I.
  assert (Hb : well_typed (Pulse 2)) by in_range.
  split; [exact (conj HA (conj HB (conj Hd (conj Ha Hb))))|].
  exact (pins_commute (GPIO_PIN 5) (GPIO_PIN 9) On (Pulse 2) (mkPort 512 0 0)
           HA HB Hd Ha Hb).
Defined.

Lemma same_outside_settle (x_Pin : Z) (o : operation) (p : GPIO_TypeDef) :
  same_outside x_Pin p (settle x_Pin o p).
Proof.
  unfold settle. destruct (effect o).
  - apply same_outside_refl.
  - apply same_outside_raised.
  - apply same_outside_lowered.
Qed.

(** X3: a call on one pin does not change what the getter of another pin of
    the port returns, when the two masks share no bit. *)
Theorem other_pin_reads_the_same (x_A x_B : Z) (o : operation)
    (p : GPIO_TypeDef) :
  0 <= x_A < 2 ^ 16 -> 0 <= x_B < 2 ^ 16 -> Z.land x_A x_B = 0 ->
  well_typed o ->
  result_of (call x_B o ;; x_get x_A) p = result_of (x_get x_A) p.
Proof.
  intros HA HB Hd Ho.
  destruct (call_settles x_B o p HB Ho) as (r & t & E).
  rewrite (result_of_bind _ _ _ _ _ _ E).
  unfold result_of. rewrite !x_get_run.
  replace (Z.land (IDR_of (settle x_B o p)) (uint32 x_A))
    with (Z.land (IDR_of p) (uint32 x_A)); [reflexivity|].
  rewrite uint32_small by lia.
  destruct (same_outside_settle x_B o p) as (Hbits & _ & _).
  apply Z.bits_inj'. intros i Hi. rewrite !Z.land_spec.
  pose proof (disjoint_bits x_A x_B i Hd) as Hi'.
  destruct (Z.testbit x_A i) eqn:EA; [|now rewrite !andb_false_r].
  cbn in Hi'. destruct (Hbits i Hi') as [_ ->]. reflexivity.
Qed.

Lemma other_pin_reads_the_same_witness :
  (0 <= GPIO_PIN 5 < 2 ^ 16 /\ 0 <= GPIO_PIN 9 < 2 ^ 16
   /\ Z.land (GPIO_PIN 5) (GPIO_PIN 9) = 0 /\ well_typed Off)
  /\ result_of (call (GPIO_PIN 9) Off ;; x_get (GPIO_PIN 5))
       (mkPort 544 0 65535)
     = result_of (x_get (GPIO_PIN 5)) (mkPort 544 0 65535).
Proof.
  assert (HA : 0 <= GPIO_PIN 5 < 2 ^ 16) by in_range.
  assert (HB : 0 <= GPIO_PIN 9 < 2 ^ 16) by in_range.
  assert (Hd : Z.land (GPIO_PIN 5) (GPIO_PIN 9) = 0) by reflexivity.
  assert (Ho : well_typed Off) by exact I.
  split; [exact (conj HA (conj HB (conj Hd Ho)))|].
  exact (other_pin_reads_the_same (GPIO_PIN 5) (GPIO_PIN 9) Off
           (mkPort 544 0 65535) HA HB Hd Ho).
Defined.

(** *** The getter on masks of one and of several bits *)

Lemma x_get_single_bit_witness :
  0 <= 5 < 16
  /\ result_of (x_get (GPIO_PIN 5)) (mkPort 0 33 0)
     = Some (Z.b2z (Z.testbit (IDR_of (mkPort 0 33 0)) 5)).
Proof.
  assert (Hk : 0 <= 5 < 16) by in_range.
  split; [exact Hk|].
  exact (x_get_single_bit 5 (mkPort 0 33 0) Hk).
Defined.

(** X5: on a mask of several pins the getter returns 1 exactly when at least
    one pin of the mask is high in the input-data register, and 0 when none
    is. *)
Theorem get_any_pin_high (x_Pin : Z) (p : GPIO_TypeDef) :
  0 <= x_Pin < 2 ^ 16 ->
  (result_of (x_get x_Pin) p = Some 1
   <-> exists k, Z.testbit x_Pin k = true /\ Z.testbit (IDR_of p) k = true)
  /\ (result_of (x_get x_Pin) p = Some 0
      <-> forall k, Z.testbit x_Pin k = true ->
                    Z.testbit (IDR_of p) k = false).
Proof.
  intros Hx. unfold result_of. rewrite x_get_run, uint32_small by lia.
  assert (Hnn : 0 <= Z.land (IDR_of p) x_Pin) by (apply Z.land_nonneg; lia).
  destruct (Z.eqb_spec (Z.land (IDR_of p) x_Pin) 0) as [E0|Ene].
  - assert (Hnone : forall k, Z.testbit x_Pin k = true ->
                              Z.testbit (IDR_of p) k = false).
    { intros k Hk.
      apply (f_equal (fun z => Z.testbit z k)) in E0.
      rewrite Z.land_spec, Hk, Z.bits_0, andb_true_r in E0. exact E0. }
    split; split; try discriminate; auto.
    intros (k & Hk & Hi). rewrite (Hnone k Hk) in Hi. discriminate.
  - assert (Hsome : exists k, Z.testbit x_Pin k = true
                              /\ Z.testbit (IDR_of p) k = true).
    { exists (Z.log2 (Z.land (IDR_of p) x_Pin)).
      assert (Hb : Z.testbit (Z.land (IDR_of p) x_Pin)
                     (Z.log2 (Z.land (IDR_of p) x_Pin)) = true)
        by (apply Z.bit_log2; lia).
      rewrite Z.land_spec in Hb. apply andb_true_iff in Hb. tauto. }
    split; split; try discriminate; auto.
    intros Hnone. destruct Hsome as (k & Hk & Hi).
    rewrite (Hnone k Hk) in Hi. discriminate.
Qed.

Lemma get_any_pin_high_witness :
  0 <= 48 < 2 ^ 16
  /\ (result_of (x_get 48) (mkPort 0 17 0) = Some 1
      <-> exists k, Z.testbit 48 k = true
                    /\ Z.testbit (IDR_of (mkPort 0 17 0)) k = true)
  /\ (result_of (x_get 48) (mkPort 0 17 0) = Some 0
      <-> forall k, Z.testbit 48 k = true ->
                    Z.testbit (IDR_of (mkPort 0 17 0)) k = false).
Proof.
  assert (Hx : 0 <= 48 < 2 ^ 16) by in_range.
  split; [exact Hx|].
  exact (get_any_pin_high 48 (mkPort 0 17 0) Hx).
Defined.

(** *** Masks wider than the port *)

Lemma reset_word_wraps (x : Z) :
  uint32 (Z.shiftl x 16) = Z.shiftl (x mod 2 ^ 16) 16.
Proof.
  unfold uint32. rewrite !Z.shiftl_mul_pow2 by lia.
  change (2 ^ 32) with (2 ^ 16 * 2 ^ 16).
  apply Z.mul_mod_distr_r; lia.
Qed.

(** X6: [x_off] sees only the low 16 bits of the mask, whatever the mask:
    it stores the mask modulo [2^16], shifted into the upper half, and clears
    those pins; it never sets a bit of the output latch. *)
Theorem off_uses_low_mask_bits (x_Pin : Z) (p : GPIO_TypeDef) :
  x_off x_Pin p
  = Some (tt, lowered (x_Pin mod 2 ^ 16) p,
          [Store BSRR (Z.shiftl (x_Pin mod 2 ^ 16) 16)])
  /\ x_off x_Pin p = x_off (x_Pin mod 2 ^ 16) p
  /\ (forall i, Z.testbit (latch (lowered (x_Pin mod 2 ^ 16) p)) i = true ->
                Z.testbit (latch p) i = true).
Proof.
  assert (Hm : 0 <= x_Pin mod 2 ^ 16 < 2 ^ 16)
    by (apply Z.mod_pos_bound; lia).
  assert (E : x_off x_Pin p = x_off (x_Pin mod 2 ^ 16) p).
  { unfold x_off. rewrite !reset_word_wraps.
    now rewrite Z.mod_mod by lia. }
  split; [|split].
  - rewrite E. now apply x_off_run.
  - exact E.
  - intros i. unfold lowered. cbn [latch]. rewrite Z.land_spec.
    intros H. apply andb_true_iff in H. tauto.
Qed.

(** *** The edges of [x_pulse] *)

(** X8: [x_pulse n] with [n >= 1] produces [2 n] edges on a pin that is low
    when it is called, and one edge less on a pin that is high, as the first
    [x_on] then changes nothing. *)
Theorem pulse_edge_count (x_Pin n : Z) (p : GPIO_TypeDef) :
  0 < x_Pin < 2 ^ 16 -> 1 <= n < 2 ^ 32 ->
  edges_of x_Pin (x_pulse x_Pin n) p
  = Some (2 * Z.to_nat n - (if driven_high x_Pin p then 1 else 0))%nat.
Proof.
  intros Hx Hn. unfold edges_of.
  rewrite x_pulse_pin_run by lia.
  rewrite levels_pulse_train by assumption.
  destruct (Z.to_nat n) as [|k] eqn:E; [lia|].
  rewrite edges_square_wave.
  f_equal. destruct (driven_high x_Pin p); lia.
Qed.

Lemma pulse_edge_count_witness :
  (0 < GPIO_PIN 5 < 2 ^ 16 /\ 1 <= 3 < 2 ^ 32)
  /\ edges_of (GPIO_PIN 5) (x_pulse (GPIO_PIN 5) 3) (mkPort 32 0 0)
     = Some (2 * Z.to_nat 3
             - (if driven_high (GPIO_PIN 5) (mkPort 32 0 0) then 1 else 0))%nat.
Proof.
  assert (Hx : 0 < GPIO_PIN 5 < 2 ^ 16) by (vm_compute; split; reflexivity).
  assert (Hn : 1 <= 3 < 2 ^ 32) by in_range.
  split; [exact (conj Hx Hn)|].
  exact (pulse_edge_count (GPIO_PIN 5) 3 (mkPort 32 0 0) Hx Hn).
Defined.
